(** * base-backend-express: the validation adapter and the operational error

    A shallow embedding of the two utilities of the repository:

    - [validate] (the validation adapter), which runs a zod validator on a
      value through [safeParse] or [safeParseAsync] and turns the result into
      a [{ success, ... }] object;
    - [ExpressError] (src/lib/express-error.ts), an [Error] subclass carrying
      an HTTP status code and the [isOperational] flag.

    JavaScript objects that the code builds as literals are finite maps from
    property names to values; the effects of [validate] (the call into the
    validator, the [console.error] line, an exception that unwinds the
    function) are threaded through a small state-and-exception monad. *)

From Stdlib Require Import ZArith DecimalString.
From stdpp Require Import gmap strings list fin_maps.

Open Scope string_scope.
Open Scope list_scope.

(** ** JavaScript values handed to a validator

    [data: unknown] is any JavaScript value.  The adapter never inspects it,
    it only passes it to the validator, so numbers are kept as integers. *)

#[warnings="-register-all"]
Inductive JsValue : Type :=
  | JUndefined
  | JNull
  | JBoolean (b : bool)
  | JNumber (n : Z)
  | JString (s : string)
  | JArray (items : list JsValue)
  | JObject (props : list (string * JsValue)).

(** ** The part of zod the adapter relies on *)

Module Zod.

(** One segment of an issue path: zod types it [string | number]. *)
Inductive PathSeg : Type :=
  | PKey (k : string)
  | PIndex (i : N).

(** The property name under which a segment is stored when it is used as
    an object key ([obj[0]] and [obj["0"]] are the same property). *)
Definition prop_key (p : PathSeg) : string :=
  match p with
  | PKey k => k
  | PIndex i => NilEmpty.string_of_uint (N.to_uint i)
  end.

Record ZodIssue : Type := {
  path : list PathSeg;
  message : string
}.

(** A [ZodError] carries its issues; [error.message] is a getter that zod
    computes from them.  The adapter only reads it, so it is kept as a
    field that may hold any string. *)
Record ZodError : Type := {
  issues : list ZodIssue;
  error_message : string
}.

Record FlattenedError : Type := {
  formErrors : list string;
  fieldErrors : gmap string (list string)
}.

(** Modelled from the spec: [ZodError.flatten] belongs to the zod library
    and is not part of src/.  The specification describes it as flattening
    the error tree to one entry per field, preserving each field's ordered
    list of messages, while issues without a path are not per-field
    entries.  The definition follows the loop of the library:
<<
    for (const sub of this.issues) {
      if (sub.path.length > 0) {
        fieldErrors[sub.path[0]] = fieldErrors[sub.path[0]] || [];
        fieldErrors[sub.path[0]].push(mapper(sub));
      } else {
        formErrors.push(mapper(sub));
      }
    }
>>
    with the default mapper [issue => issue.message]. *)
Definition flatten_step (acc : FlattenedError) (sub : ZodIssue) : FlattenedError :=
  match path sub with
  | p :: _ =>
      let k := prop_key p in
      {| formErrors := formErrors acc;
         fieldErrors :=
           <[k := default [] (fieldErrors acc !! k) ++ [message sub]]>
             (fieldErrors acc) |}
  | [] =>
      {| formErrors := formErrors acc ++ [message sub];
         fieldErrors := fieldErrors acc |}
  end.

(** Modelled from the spec: [error.flatten()] of the zod library (not part
    of src/), the loop above run over the issues of the error, starting from
    [{ formErrors: [], fieldErrors: {} }]. *)
Definition flatten (e : ZodError) : FlattenedError :=
  foldl flatten_step {| formErrors := []; fieldErrors := ∅ |} (issues e).

(** [SafeParseReturnType<Input, Output>]:
    [{ success: true; data: Output } | { success: false; error: ZodError }]. *)
Inductive SafeParseReturnType (O : Type) : Type :=
  | SafeParseSuccess (data : O)
  | SafeParseError (error : ZodError).
Arguments SafeParseSuccess {O} data.
Arguments SafeParseError {O} error.

End Zod.

Import Zod.

(** ** Effects

    A call either returns a value or throws.  For the [async] function
    [validate] the two cases are the fulfilment and the rejection of the
    promise it returns. *)

Inductive Completion (A : Type) : Type :=
  | Normal (a : A)
  | Throw (reason : JsValue).
Arguments Normal {A} a.
Arguments Throw {A} reason.

(** A promise is represented by the state it settles in. *)
Inductive Promise (A : Type) : Type :=
  | Fulfilled (a : A)
  | Rejected (reason : JsValue).
Arguments Fulfilled {A} a.
Arguments Rejected {A} reason.

(** What a run leaves behind: the calls made into the validator and the
    lines written with [console.error], in the order they happened. *)
Inductive Event : Type :=
  | CallSafeParse (data : JsValue)
  | CallSafeParseAsync (data : JsValue)
  | ConsoleError (args : list string).

Definition Trace : Type := list Event.

Definition Eff (A : Type) : Type := Trace → Completion A * Trace.

Definition ret {A} (a : A) : Eff A := λ t, (Normal a, t).

Definition bind {A B} (m : Eff A) (k : A → Eff B) : Eff B :=
  λ t, match m t with
       | (Normal a, t') => k a t'
       | (Throw e, t') => (Throw e, t')
       end.

Definition emit (ev : Event) : Eff unit := λ t, (Normal tt, t ++ [ev]).

Definition complete {A} (c : Completion A) : Eff A := λ t, (c, t).

Notation "'do' x <- m ; k" := (bind m (λ x, k))
  (at level 10, x name, m at level 100, k at level 200, only parsing).
Notation "'run' m ; k" := (bind m (λ _, k))
  (at level 10, m at level 100, k at level 200, only parsing).

(** [await p]: the value of a fulfilled promise, or its rejection reason
    thrown at the [await]. *)
Definition await {A} (p : Promise A) : Eff A :=
  complete match p with
           | Fulfilled a => Normal a
           | Rejected e => Throw e
           end.

(** [console.error(...args)] *)
Definition console_error (args : list string) : Eff unit :=
  emit (ConsoleError args).

(** ** The validator capability

    [validate] uses two methods of its [validator] argument.  As any
    JavaScript call, [safeParse] may throw instead of returning, and the
    promise of [safeParseAsync] may reject. *)
Record Validator (O : Type) : Type := {
  safeParse : JsValue → Completion (SafeParseReturnType O);
  safeParseAsync : JsValue → Promise (SafeParseReturnType O)
}.
Arguments safeParse {O} _ _.
Arguments safeParseAsync {O} _ _.

Definition call_safeParse {O} (validator : Validator O) (data : JsValue)
  : Eff (SafeParseReturnType O) :=
  run emit (CallSafeParse data);
  complete (safeParse validator data).

Definition call_safeParseAsync {O} (validator : Validator O) (data : JsValue)
  : Eff (Promise (SafeParseReturnType O)) :=
  run emit (CallSafeParseAsync data);
  ret (safeParseAsync validator data).

(** ** The object returned by [validate] *)

Inductive PropValue (O : Type) : Type :=
  | VBoolean (b : bool)
  | VString (s : string)
  | VFieldErrors (errors : gmap string (list string))
  | VData (data : O).
Arguments VBoolean {O} b.
Arguments VString {O} s.
Arguments VFieldErrors {O} errors.
Arguments VData {O} data.

(** The options argument; [{ async } = { async: false }] makes it optional. *)
Record Options : Type := { async : bool }.

(** ** validate *)

Definition validate {O} (validator : Validator O) (data : JsValue)
    (options : option Options) : Eff (gmap string (PropValue O)) :=
  let '{| async := async |} := default {| async := false |} options in
  do result <- (if async
                then (do p <- call_safeParseAsync validator data; await p)
                else call_safeParse validator data);
  match result with
  | SafeParseError error =>
      run console_error ["Validation failed:"; error_message error];
      ret (<["success" := VBoolean false]>
           (<["message" := VString "Validation failed"]>
            (<["errors" := VFieldErrors (fieldErrors (flatten error))]> ∅)))
  | SafeParseSuccess data =>
      ret (<["success" := VBoolean true]>
           (<["data" := VData data]> ∅))
  end.

(** Whether the caller asked for the asynchronous path: the value bound to
    [async] by the parameter pattern [{ async } = { async: false }]. *)
Definition async_requested (options : option Options) : bool :=
  match options with
  | Some o => async o
  | None => false
  end.

(** How the parse operation selected by [async] ends: what [safeParse]
    returns or throws, or what the promise of [safeParseAsync] settles to. *)
Definition parse_settled {O} (validator : Validator O) (async : bool)
    (data : JsValue) : Completion (SafeParseReturnType O) :=
  if async
  then match safeParseAsync validator data with
       | Fulfilled r => Normal r
       | Rejected e => Throw e
       end
  else safeParse validator data.

(** The event that records the call of the selected operation. *)
Definition parse_call (async : bool) (data : JsValue) : Event :=
  if async then CallSafeParseAsync data else CallSafeParse data.

Definition is_parse_call (ev : Event) : bool :=
  match ev with
  | CallSafeParse _ | CallSafeParseAsync _ => true
  | ConsoleError _ => false
  end.

(** The field an issue is filed under by [flatten]: the property key of the
    first segment of its path, if it has one. *)
Definition field_key (i : ZodIssue) : option string :=
  prop_key <$> head (path i).

(** ** ExpressError (src/lib/express-error.ts) *)

Module Express.

(** An [ExpressError] instance: the [message] and [stack] it inherits from
    [Error] and the two fields of the class.  A stack is the list of the
    frames it shows, innermost first. *)
Record ExpressError : Type := {
  message : string;
  stack : list string;
  statusCode : Z;
  isOperational : bool
}.

Definition set_statusCode (v : Z) (this : ExpressError) : ExpressError :=
  {| message := message this; stack := stack this;
     statusCode := v; isOperational := isOperational this |}.

Definition set_isOperational (v : bool) (this : ExpressError) : ExpressError :=
  {| message := message this; stack := stack this;
     statusCode := statusCode this; isOperational := v |}.

(** [Error.captureStackTrace(this, this.constructor)]: the stack of the
    call site, without the constructor's own frame. *)
Definition captureStackTrace (frames : list string) (this : ExpressError)
  : ExpressError :=
  {| message := message this; stack := frames;
     statusCode := statusCode this; isOperational := isOperational this |}.

(** [new ExpressError(message, statusCode)], evaluated where the call
    stack is [frames]. *)
Definition new (frames : list string) (message : string) (statusCode : Z)
  : ExpressError :=
  (* super(message), then the field initialisers
     statusCode = 200 and isOperational = false *)
  let this := {| message := message;
                 stack := "new ExpressError" :: frames;
                 statusCode := 200;
                 isOperational := false |} in
  let this := set_statusCode statusCode this in
  let this := set_isOperational true this in
  captureStackTrace frames this.

End Express.

(** ** Sample validators

    The schema of the specification's scenarios, [{ name: string, age: number }],
    written directly as a validator, and a schema with an asynchronous
    refinement, which zod refuses to run synchronously. *)

Module Samples.

Definition parsed_type (v : JsValue) : string :=
  match v with
  | JUndefined => "undefined"
  | JNull => "null"
  | JBoolean _ => "boolean"
  | JNumber _ => "number"
  | JString _ => "string"
  | JArray _ => "array"
  | JObject _ => "object"
  end.

Fixpoint get (k : string) (props : list (string * JsValue)) : JsValue :=
  match props with
  | [] => JUndefined
  | (k', v) :: rest => if String.eqb k k' then v else get k rest
  end.

Definition invalid_type (p : list PathSeg) (expected : string) (v : JsValue)
  : ZodIssue :=
  {| path := p;
     message := match v with
                | JUndefined => "Required"
                | _ => "Expected " +:+ expected +:+ ", received " +:+ parsed_type v
                end |}.

Definition expect (expected : string) (p : list PathSeg) (v : JsValue)
  : list ZodIssue :=
  if String.eqb (parsed_type v) expected then [] else [invalid_type p expected v].

Definition zod_error (iss : list ZodIssue) : ZodError :=
  {| issues := iss;
     error_message := String.concat "; " (message <$> iss) |}.

Definition person_parse (data : JsValue) : SafeParseReturnType JsValue :=
  match data with
  | JObject props =>
      match expect "string" [PKey "name"] (get "name" props)
            ++ expect "number" [PKey "age"] (get "age" props) with
      | [] => SafeParseSuccess
                (JObject [("name", get "name" props); ("age", get "age" props)])
      | iss => SafeParseError (zod_error iss)
      end
  | _ => SafeParseError (zod_error [invalid_type [] "object" data])
  end.

Definition person : Validator JsValue :=
  {| safeParse := λ data, Normal (person_parse data);
     safeParseAsync := λ data, Fulfilled (person_parse data) |}.

(** A schema with an asynchronous refinement: it can only be run with
    [safeParseAsync]; its [safeParse] throws. *)
Definition async_only : Validator JsValue :=
  {| safeParse := λ _, Throw (JString "Synchronous parse encountered promise.");
     safeParseAsync := λ data, Fulfilled (person_parse data) |}.

Definition al_x : JsValue :=
  JObject [("name", JString "Al"); ("age", JString "x")].

Definition al_30 : JsValue :=
  JObject [("name", JString "Al"); ("age", JNumber 30)].

End Samples.

(** Two more schemas: one with a form-level refinement, whose issue has no
    path, and one with an array field, whose issues have a path of two
    segments. *)

Module MoreSamples.

(** [z.object({ password: z.string().min(8), confirm: z.string() })
      .refine(d => d.password === d.confirm, "Passwords differ")],
    on inputs whose two fields are strings. *)
Definition signup_issues (password confirm : string) : list ZodIssue :=
  (if Nat.ltb (String.length password) 8
   then [{| path := [PKey "password"];
            message := "String must contain at least 8 character(s)" |}]
   else [])
  ++ (if String.eqb password confirm
      then []
      else [{| path := []; message := "Passwords differ" |}]).

Definition signup_parse (data : JsValue) : SafeParseReturnType JsValue :=
  match data with
  | JObject props =>
      match Samples.get "password" props, Samples.get "confirm" props with
      | JString password, JString confirm =>
          match signup_issues password confirm with
          | [] => SafeParseSuccess
                    (JObject [("password", JString password);
                              ("confirm", JString confirm)])
          | iss => SafeParseError (Samples.zod_error iss)
          end
      | JString _, other =>
          SafeParseError
            (Samples.zod_error [Samples.invalid_type [PKey "confirm"] "string" other])
      | other, _ =>
          SafeParseError
            (Samples.zod_error [Samples.invalid_type [PKey "password"] "string" other])
      end
  | _ => SafeParseError
           (Samples.zod_error [Samples.invalid_type [] "object" data])
  end.

Definition signup : Validator JsValue :=
  {| safeParse := λ data, Normal (signup_parse data);
     safeParseAsync := λ data, Fulfilled (signup_parse data) |}.

Definition short_matching : JsValue :=
  JObject [("password", JString "abc"); ("confirm", JString "abc")].

Definition short_differing : JsValue :=
  JObject [("password", JString "abc"); ("confirm", JString "xyz")].

(** [z.object({ tags: z.array(z.string()) })] *)
Definition tag_issues (items : list JsValue) : list ZodIssue :=
  mjoin (imap (λ i item,
                 Samples.expect "string" [PKey "tags"; PIndex (N.of_nat i)] item)
              items).

Definition tagged_parse (data : JsValue) : SafeParseReturnType JsValue :=
  match data with
  | JObject props =>
      match Samples.get "tags" props with
      | JArray items =>
          match tag_issues items with
          | [] => SafeParseSuccess (JObject [("tags", JArray items)])
          | iss => SafeParseError (Samples.zod_error iss)
          end
      | other =>
          SafeParseError
            (Samples.zod_error [Samples.invalid_type [PKey "tags"] "array" other])
      end
  | _ => SafeParseError
           (Samples.zod_error [Samples.invalid_type [] "object" data])
  end.

Definition tagged : Validator JsValue :=
  {| safeParse := λ data, Normal (tagged_parse data);
     safeParseAsync := λ data, Fulfilled (tagged_parse data) |}.

Definition bad_first_tag : JsValue :=
  JObject [("tags", JArray [JNumber 1; JString "a"])].

Definition bad_second_tag : JsValue :=
  JObject [("tags", JArray [JString "a"; JNumber 1])].

End MoreSamples.

(** The messages of the issues of [l] filed under the field [k], in the
    order of [l]. *)
Definition messages_for (k : string) (l : list ZodIssue) : list string :=
  message <$> filter (λ i, field_key i = Some k) l.

(** The console lines of a trace, oldest first. *)
Definition console_lines (t : Trace) : list (list string) :=
  omap (λ ev, match ev with ConsoleError args => Some args | _ => None end) t.

(** * Properties *)

(** ** Flattening a ZodError *)

Section Flatten.

Implicit Types (acc : FlattenedError) (sub : ZodIssue).
Implicit Types (l : list ZodIssue) (k : string).

Lemma messages_for_cons k sub l :
  messages_for k (sub :: l) =
    if decide (field_key sub = Some k)
    then message sub :: messages_for k l
    else messages_for k l.
Proof.
  unfold messages_for. rewrite filter_cons.
  destruct (decide (field_key sub = Some k)); reflexivity.
Qed.

Lemma messages_for_nil_iff k l :
  messages_for k l = [] ↔ ∀ i, i ∈ l → field_key i ≠ Some k.
Proof.
  induction l as [|sub l IH].
  - split; [intros _ i Hi; inversion Hi | reflexivity].
  - rewrite messages_for_cons.
    destruct (decide (field_key sub = Some k)) as [Hk|Hk].
    + split; [discriminate|].
      intros Hall. exfalso. apply (Hall sub); [left | exact Hk].
    + rewrite IH. split.
      * intros Hall i Hi. apply elem_of_cons in Hi as [->|Hi]; auto.
      * intros Hall i Hi. apply Hall. now right.
Qed.

Lemma flatten_step_lookup acc sub k :
  fieldErrors (flatten_step acc sub) !! k =
    if decide (field_key sub = Some k)
    then Some (default [] (fieldErrors acc !! k) ++ [message sub])
    else fieldErrors acc !! k.
Proof.
  unfold flatten_step, field_key.
  destruct (path sub) as [|p ps]; simpl.
  - destruct (decide (None = Some k)); [discriminate | reflexivity].
  - destruct (decide (Some (prop_key p) = Some k)) as [Hk|Hk].
    + injection Hk as ->. apply lookup_insert_eq.
    + apply lookup_insert_ne. congruence.
Qed.

Lemma flatten_step_formErrors acc sub :
  formErrors (flatten_step acc sub) =
    match path sub with
    | [] => formErrors acc ++ [message sub]
    | _ :: _ => formErrors acc
    end.
Proof. unfold flatten_step. destruct (path sub); reflexivity. Qed.

Lemma foldl_flatten_lookup l : ∀ acc k,
  fieldErrors (foldl flatten_step acc l) !! k =
    match messages_for k l with
    | [] => fieldErrors acc !! k
    | ms => Some (default [] (fieldErrors acc !! k) ++ ms)
    end.
Proof.
  induction l as [|sub l IH]; intros acc k; [reflexivity|].
  simpl foldl. rewrite IH, flatten_step_lookup, messages_for_cons.
  destruct (decide (field_key sub = Some k)); [|reflexivity].
  destruct (messages_for k l) as [|m ms]; [reflexivity|].
  simpl default. now rewrite <- app_assoc.
Qed.

Lemma flatten_lookup (e : ZodError) k :
  fieldErrors (flatten e) !! k =
    match messages_for k (issues e) with
    | [] => None
    | ms => Some ms
    end.
Proof.
  unfold flatten. rewrite foldl_flatten_lookup. simpl fieldErrors.
  rewrite lookup_empty. reflexivity.
Qed.

Lemma flatten_lookup_Some (e : ZodError) k ms :
  fieldErrors (flatten e) !! k = Some ms →
  ms ≠ [] ∧ ms = messages_for k (issues e).
Proof.
  rewrite flatten_lookup.
  destruct (messages_for k (issues e)) as [|m ms']; [discriminate|].
  intros [= <-]. split; [discriminate | reflexivity].
Qed.

Lemma messages_for_cons_iff k l :
  messages_for k l ≠ [] ↔ ∃ i, i ∈ l ∧ field_key i = Some k.
Proof.
  induction l as [|sub l IH].
  - split; [intros H; now destruct H | intros (i & Hi & _); inversion Hi].
  - rewrite messages_for_cons.
    destruct (decide (field_key sub = Some k)) as [Hk|Hk].
    + split; [intros _ | discriminate].
      exists sub. split; [left | exact Hk].
    + rewrite IH. split.
      * intros (i & Hi & Hik). exists i. split; [now right | exact Hik].
      * intros (i & Hi & Hik). apply elem_of_cons in Hi as [->|Hi].
        -- contradiction.
        -- eauto.
Qed.

Lemma flatten_dom (e : ZodError) k :
  k ∈ dom (fieldErrors (flatten e)) ↔
  ∃ i, i ∈ issues e ∧ field_key i = Some k.
Proof.
  rewrite elem_of_dom, flatten_lookup, <- messages_for_cons_iff.
  destruct (messages_for k (issues e)) as [|m ms].
  - split; [intros [? ?]; discriminate | intros H; now destruct H].
  - split; [discriminate | eauto].
Qed.

Lemma flatten_root_only (e : ZodError) :
  Forall (λ i, path i = []) (issues e) →
  fieldErrors (flatten e) = ∅.
Proof.
  intros Hroot. apply map_eq. intros k.
  rewrite flatten_lookup, lookup_empty.
  assert (messages_for k (issues e) = []) as ->; [|reflexivity].
  apply messages_for_nil_iff. intros i Hi.
  rewrite Forall_forall in Hroot. unfold field_key.
  rewrite (Hroot i Hi). discriminate.
Qed.

End Flatten.

(** ** Running validate *)

Section Validate.

Context {O : Type}.
Implicit Types (V : Validator O) (d : JsValue) (o : option Options).
Implicit Types (t : Trace) (e : ZodError) (x : O).
Implicit Types (out : gmap string (PropValue O)).

(** One run of [validate], by the way the selected parse operation ends. *)
Lemma validate_run V d o t :
  validate V d o t =
    let t1 := t ++ [parse_call (async_requested o) d] in
    match parse_settled V (async_requested o) d with
    | Normal (SafeParseError e) =>
        (Normal (<["success" := VBoolean false]>
                 (<["message" := VString "Validation failed"]>
                  (<["errors" := VFieldErrors (fieldErrors (flatten e))]> ∅))),
         t1 ++ [ConsoleError ["Validation failed:"; error_message e]])
    | Normal (SafeParseSuccess x) =>
        (Normal (<["success" := VBoolean true]> (<["data" := VData x]> ∅)), t1)
    | Throw reason => (Throw reason, t1)
    end.
Proof.
  destruct o as [[[|]]|]; simpl;
    unfold validate, bind, call_safeParse, call_safeParseAsync, await,
      console_error, complete, emit, ret, bind; simpl.
  - destruct (safeParseAsync V d) as [[x|e]|reason]; reflexivity.
  - destruct (safeParse V d) as [[x|e]|reason]; reflexivity.
  - destruct (safeParse V d) as [[x|e]|reason]; reflexivity.
Qed.

(** An exception of the validator is not caught: [validate] has no
    [try]. *)
Lemma validate_propagates_throw V d o t reason :
  parse_settled V (async_requested o) d = Throw reason →
  fst (validate V d o t) = Throw reason.
Proof. intros H. rewrite validate_run, H. reflexivity. Qed.

(** C1: when the selected parse operation fails with error [e], [validate]
    returns the object with [success: false], [message: "Validation failed"]
    and an [errors] map whose keys are exactly the fields under which [e]
    reports an issue, each bound to the non-empty list of the messages of
    that field's issues, in the order of the issues. *)
Theorem validate_failure V d o t e :
  parse_settled V (async_requested o) d = Normal (SafeParseError e) →
  ∃ out t' errors,
    validate V d o t = (Normal out, t') ∧
    out !! "success" = Some (VBoolean false) ∧
    out !! "message" = Some (VString "Validation failed") ∧
    out !! "errors" = Some (VFieldErrors errors) ∧
    (∀ k, k ∈ dom errors ↔ ∃ i, i ∈ issues e ∧ field_key i = Some k) ∧
    (∀ k ms, errors !! k = Some ms →
       ms ≠ [] ∧
       ms = message <$> filter (λ i, field_key i = Some k) (issues e)).
Proof.
  intros Hfail. rewrite validate_run, Hfail. cbv zeta.
  eexists _, _, (fieldErrors (flatten e)).
  split; [reflexivity|].
  split; [now simplify_map_eq|].
  split; [now simplify_map_eq|].
  split; [now simplify_map_eq|].
  split.
  - intros k. apply flatten_dom.
  - intros k ms Hk. apply flatten_lookup_Some in Hk. exact Hk.
Qed.

(** C2: when the selected parse operation succeeds with output [x],
    [validate] returns the object with [success: true] and [data: x]; on
    the synchronous path (options omitted or [async: false]) the operation
    is [safeParse], on the asynchronous path it is [safeParseAsync]. *)
Theorem validate_success V d o t x :
  (if async_requested o
   then safeParseAsync V d = Fulfilled (SafeParseSuccess x)
   else safeParse V d = Normal (SafeParseSuccess x)) →
  ∃ out t',
    validate V d o t = (Normal out, t') ∧
    out !! "success" = Some (VBoolean true) ∧
    out !! "data" = Some (VData x).
Proof.
  intros Hok. rewrite validate_run. unfold parse_settled.
  destruct (async_requested o); rewrite Hok; cbv zeta;
    (eexists _, _; split; [reflexivity|]; split; now simplify_map_eq).
Qed.


(** C5: [validate] invokes [safeParseAsync] when the options carry
    [async: true] and [safeParse] when they carry [async: false] or are
    omitted.  The call of the selected operation on [data] is the first
    thing that happens and the only call into the validator; what the
    selected operation returns or throws is what [validate] acts on; and the
    other operation is never consulted: validators that agree on the
    selected operation make [validate] behave identically. *)
Theorem validate_selects_parse_operation V d o t :
  let call := match o with
              | Some {| async := true |} => CallSafeParseAsync d
              | Some {| async := false |} | None => CallSafeParse d
              end in
  let selected (W : Validator O) :=
    match o with
    | Some {| async := true |} =>
        match safeParseAsync W d with
        | Fulfilled r => Normal r
        | Rejected reason => Throw reason
        end
    | Some {| async := false |} | None => safeParse W d
    end in
  (∃ rest,
     snd (validate V d o t) = t ++ call :: rest ∧
     Forall (λ ev, is_parse_call ev = false) rest) ∧
  (∀ V', selected V' = selected V → validate V' d o t = validate V d o t) ∧
  match selected V with
  | Normal (SafeParseSuccess x) =>
      ∃ out, fst (validate V d o t) = Normal out ∧
             out !! "success" = Some (VBoolean true) ∧
             out !! "data" = Some (VData x)
  | Normal (SafeParseError e) =>
      ∃ out, fst (validate V d o t) = Normal out ∧
             out !! "success" = Some (VBoolean false) ∧
             out !! "errors" = Some (VFieldErrors (fieldErrors (flatten e))) ∧
             ConsoleError ["Validation failed:"; error_message e]
               ∈ snd (validate V d o t)
  | Throw reason => fst (validate V d o t) = Throw reason
  end.
Proof.
  intros call selected.
  assert (∀ W, selected W = parse_settled W (async_requested o) d) as Hsel.
  { intros W. subst selected. destruct o as [[[|]]|]; reflexivity. }
  split; [|split].
  - subst call. rewrite validate_run. cbv zeta.
    destruct (parse_settled V (async_requested o) d) as [[x|e]|reason];
      destruct o as [[[|]]|]; simpl; rewrite <- ?app_assoc; simpl;
      eexists; (split; [reflexivity|]); repeat constructor.
  - intros V' Hagree. rewrite !Hsel in Hagree.
    rewrite !validate_run, Hagree. reflexivity.
  - rewrite Hsel, validate_run. cbv zeta.
    destruct (parse_settled V (async_requested o) d) as [[x|e]|reason];
      simpl; [| |reflexivity].
    + eexists. split; [reflexivity|]. split; now simplify_map_eq.
    + eexists. split; [reflexivity|].
      split; [now simplify_map_eq|]. split; [now simplify_map_eq|].
      apply elem_of_app. right. apply list_elem_of_singleton. reflexivity.
Qed.

(** C6: on a failing parse the [message] of the returned object is the
    constant ["Validation failed"]; the returned object is determined by
    the issues of the error alone, so the validator's own error message
    has no way into it; that message goes to the console line. *)
Theorem validate_failure_message_fixed V d o t e :
  parse_settled V (async_requested o) d = Normal (SafeParseError e) →
  (∃ out, fst (validate V d o t) = Normal out ∧
          out !! "message" = Some (VString "Validation failed")) ∧
  (∀ V' d' o' t' e',
     parse_settled V' (async_requested o') d' = Normal (SafeParseError e') →
     issues e' = issues e →
     fst (validate V' d' o' t') = fst (validate V d o t)) ∧
  console_lines (snd (validate V d o t)) =
    console_lines t ++ [["Validation failed:"; error_message e]].
Proof.
  intros Hfail. rewrite !validate_run, Hfail. cbv zeta.
  split; [|split].
  - eexists. split; [reflexivity | now simplify_map_eq].
  - intros V' d' o' t' e' Hfail' Hiss.
    rewrite validate_run, Hfail'. cbv zeta. simpl.
    unfold flatten. now rewrite Hiss.
  - simpl. unfold console_lines. rewrite !omap_app.
    destruct (async_requested o); simpl; now rewrite app_nil_r.
Qed.

(** C8: all that a run of [validate] leaves behind is the call of the
    selected parse operation, followed on a failing parse by one
    [console.error] line with the validator's error message, and by
    nothing on a successful parse. *)
Theorem validate_effects V d o t :
  snd (validate V d o t) =
    t ++ parse_call (async_requested o) d ::
      match parse_settled V (async_requested o) d with
      | Normal (SafeParseError e) =>
          [ConsoleError ["Validation failed:"; error_message e]]
      | Normal (SafeParseSuccess _) => []
      | Throw _ => []
      end.
Proof.
  rewrite validate_run.
  destruct (parse_settled V (async_requested o) d) as [[x|e]|reason];
    simpl; rewrite <- ?app_assoc; reflexivity.
Qed.

(** C9: when every issue of the failing parse is a root-level issue (its
    path is empty), [validate] still returns the [success: false] object,
    and its [errors] map is empty. *)
Theorem validate_root_issues_dropped V d o t e :
  parse_settled V (async_requested o) d = Normal (SafeParseError e) →
  Forall (λ i, path i = []) (issues e) →
  ∃ out t',
    validate V d o t = (Normal out, t') ∧
    out !! "success" = Some (VBoolean false) ∧
    out !! "errors" = Some (VFieldErrors ∅).
Proof.
  intros Hfail Hroot. rewrite validate_run, Hfail. cbv zeta.
  rewrite (flatten_root_only e Hroot).
  eexists _, _. split; [reflexivity|]. split; now simplify_map_eq.
Qed.

(** C10: an object returned by [validate] has a boolean [success]; when it
    is [true] the object has exactly the properties [success] and [data],
    so neither [message] nor [errors]; when it is [false] it has exactly
    [success], [message] and [errors], so no [data]. *)
Theorem validate_discriminated_union V d o t out t' :
  validate V d o t = (Normal out, t') →
  ∃ b : bool,
    out !! "success" = Some (VBoolean b) ∧
    if b
    then dom out = {[ "success"; "data" ]} ∧
         (∃ x, out !! "data" = Some (VData x)) ∧
         out !! "message" = None ∧ out !! "errors" = None
    else dom out = {[ "success"; "message"; "errors" ]} ∧
         (∃ m, out !! "message" = Some (VString m)) ∧
         (∃ errors, out !! "errors" = Some (VFieldErrors errors)) ∧
         out !! "data" = None.
Proof.
  rewrite validate_run. cbv zeta.
  destruct (parse_settled V (async_requested o) d) as [[x|e]|reason];
    intros [= <- <-].
  - exists true. split; [now simplify_map_eq|].
    split; [|split; [eexists; now simplify_map_eq | split; now simplify_map_eq]].
    rewrite !dom_insert_L, dom_empty_L. set_solver.
  - exists false. split; [now simplify_map_eq|].
    split; [|split; [eexists; now simplify_map_eq
                    | split; [eexists; now simplify_map_eq
                             | now simplify_map_eq]]].
    rewrite !dom_insert_L, dom_empty_L. set_solver.
Qed.

End Validate.

(** ** ExpressError *)

(** C4: [new ExpressError(m, s)] has message [m], status code [s], whatever
    integer [s] is, and [isOperational] set; so
    [new ExpressError("Not found", 404)] has status code 404, is operational
    and has the message "Not found". *)
Theorem ExpressError_new (frames : list string) (m : string) (s : Z) :
  let err := Express.new frames m s in
  let not_found := Express.new frames "Not found" 404 in
  (Express.message err = m ∧
   Express.statusCode err = s ∧
   Express.isOperational err = true) ∧
  (Express.message not_found = "Not found" ∧
   Express.statusCode not_found = 404%Z ∧
   Express.isOperational not_found = true).
Proof. repeat split. Qed.

(** ** The scenarios of the specification *)

(** [{ name: "Al", age: "x" }] fails with [errors = { age: [...] }] and one
    console line. *)
Example person_al_x :
  validate Samples.person Samples.al_x None [] =
    (Normal (<["success" := VBoolean false]>
             (<["message" := VString "Validation failed"]>
              (<["errors" := VFieldErrors
                   {[ "age" := ["Expected number, received string"] ]}]> ∅))),
     [CallSafeParse Samples.al_x;
      ConsoleError ["Validation failed:"; "Expected number, received string"]]).
Proof. reflexivity. Qed.

(** [{ name: "Al", age: 30 }] succeeds with the parsed object, on both
    paths. *)
Example person_al_30 :
  validate Samples.person Samples.al_30 None [] =
    (Normal (<["success" := VBoolean true]>
             (<["data" := VData Samples.al_30]> ∅)),
     [CallSafeParse Samples.al_30]) ∧
  validate Samples.person Samples.al_30 (Some {| async := true |}) [] =
    (Normal (<["success" := VBoolean true]>
             (<["data" := VData Samples.al_30]> ∅)),
     [CallSafeParseAsync Samples.al_30]).
Proof. split; reflexivity. Qed.

(** Several issues of one field keep their order; an issue below a field is
    filed under that field; an array index is filed under its decimal
    string. *)
Example flatten_groups :
  fieldErrors (flatten
    {| issues := [ {| path := [PKey "tags"; PIndex 1]; message := "too short" |};
                   {| path := []; message := "passwords differ" |};
                   {| path := [PIndex 0]; message := "first" |};
                   {| path := [PKey "tags"]; message := "too many" |} ];
       error_message := "4 issues" |}) =
  {[ "tags" := ["too short"; "too many"]; "0" := ["first"] ]}.
Proof. reflexivity. Qed.

(** A schema that cannot run synchronously makes [validate] throw on the
    default path, and works on the asynchronous one. *)
Example async_only_sync_path_throws :
  fst (validate Samples.async_only Samples.al_30 None []) =
    Throw (JString "Synchronous parse encountered promise.") ∧
  fst (validate Samples.async_only Samples.al_30 (Some {| async := true |}) []) =
    Normal (<["success" := VBoolean true]>
            (<["data" := VData Samples.al_30]> ∅)).
Proof. split; reflexivity. Qed.

(** ** Instances of the theorems on the sample validator *)

Lemma validate_failure_witness :
  let e := Samples.zod_error
             [Samples.invalid_type [PKey "age"] "number" (JString "x")] in
  parse_settled Samples.person (async_requested None) Samples.al_x
    = Normal (SafeParseError e) ∧
  ∃ out t' errors,
    validate Samples.person Samples.al_x None [] = (Normal out, t') ∧
    out !! "success" = Some (VBoolean false) ∧
    out !! "message" = Some (VString "Validation failed") ∧
    out !! "errors" = Some (VFieldErrors errors) ∧
    (∀ k, k ∈ dom errors ↔ ∃ i, i ∈ issues e ∧ field_key i = Some k) ∧
    (∀ k ms, errors !! k = Some ms →
       ms ≠ [] ∧
       ms = message <$> filter (λ i, field_key i = Some k) (issues e)).
Proof.
  intros e. split; [reflexivity|].
  apply (validate_failure Samples.person Samples.al_x None [] e).
  reflexivity.
Defined.

Lemma validate_success_witness :
  (safeParse Samples.person Samples.al_30
     = Normal (SafeParseSuccess Samples.al_30) ∧
   ∃ out t',
     validate Samples.person Samples.al_30 (Some {| async := false |}) []
       = (Normal out, t') ∧
     out !! "success" = Some (VBoolean true) ∧
     out !! "data" = Some (VData Samples.al_30)) ∧
  (safeParseAsync Samples.person Samples.al_30
     = Fulfilled (SafeParseSuccess Samples.al_30) ∧
   ∃ out t',
     validate Samples.person Samples.al_30 (Some {| async := true |}) []
       = (Normal out, t') ∧
     out !! "success" = Some (VBoolean true) ∧
     out !! "data" = Some (VData Samples.al_30)).
Proof.
  split; (split; [reflexivity|]).
  - apply (validate_success Samples.person Samples.al_30
             (Some {| async := false |}) [] Samples.al_30).
    reflexivity.
  - apply (validate_success Samples.person Samples.al_30
             (Some {| async := true |}) [] Samples.al_30).
    reflexivity.
Defined.



Lemma validate_selects_parse_operation_witness :
  let o := Some {| async := true |} in
  (safeParseAsync Samples.async_only Samples.al_30
     = safeParseAsync Samples.person Samples.al_30 ∧
   safeParse Samples.async_only Samples.al_30
     ≠ safeParse Samples.person Samples.al_30) ∧
  validate Samples.async_only Samples.al_30 o []
    = validate Samples.person Samples.al_30 o [] ∧
  ∃ out,
    fst (validate Samples.person Samples.al_30 o []) = Normal out ∧
    out !! "success" = Some (VBoolean true) ∧
    out !! "data" = Some (VData Samples.al_30).
Proof.
  intros o.
  destruct (validate_selects_parse_operation Samples.person Samples.al_30 o [])
    as (_ & Hother & Hacts).
  split; [split; [reflexivity | discriminate]|].
  split; [apply Hother; reflexivity | exact Hacts].
Defined.

Lemma validate_failure_message_fixed_witness :
  let V := Samples.person in
  let d := Samples.al_x in
  let e := Samples.zod_error
             [Samples.invalid_type [PKey "age"] "number" (JString "x")] in
  parse_settled V (async_requested None) d = Normal (SafeParseError e) ∧
  ((∃ out, fst (validate V d None []) = Normal out ∧
           out !! "message" = Some (VString "Validation failed")) ∧
   (∀ (V' : Validator JsValue) d' o' t' e',
      parse_settled V' (async_requested o') d' = Normal (SafeParseError e') →
      issues e' = issues e →
      fst (validate V' d' o' t') = fst (validate V d None [])) ∧
   console_lines (snd (validate V d None [])) =
     console_lines [] ++ [["Validation failed:"; error_message e]]).
Proof.
  intros V d e. split; [reflexivity|].
  apply (validate_failure_message_fixed V d None [] e).
  reflexivity.
Defined.

Lemma validate_root_issues_dropped_witness :
  let e := Samples.zod_error [Samples.invalid_type [] "object" JNull] in
  (parse_settled Samples.person (async_requested None) JNull
     = Normal (SafeParseError e) ∧
   Forall (λ i, path i = []) (issues e)) ∧
  ∃ out t',
    validate Samples.person JNull None [] = (Normal out, t') ∧
    out !! "success" = Some (VBoolean false) ∧
    out !! "errors" = Some (VFieldErrors ∅).
Proof.
  intros e. split.
  - split; [reflexivity | repeat constructor].
  - apply (validate_root_issues_dropped Samples.person JNull None [] e).
    + reflexivity.
    + repeat constructor.
Defined.

Lemma validate_discriminated_union_witness :
  let out : gmap string (PropValue JsValue) :=
    <["success" := VBoolean true]> (<["data" := VData Samples.al_30]> ∅) in
  validate Samples.person Samples.al_30 None []
    = (Normal out, [CallSafeParse Samples.al_30]) ∧
  ∃ b : bool,
    out !! "success" = Some (VBoolean b) ∧
    if b
    then dom out = {[ "success"; "data" ]} ∧
         (∃ x, out !! "data" = Some (VData x)) ∧
         out !! "message" = None ∧ out !! "errors" = None
    else dom out = {[ "success"; "message"; "errors" ]} ∧
         (∃ m, out !! "message" = Some (VString m)) ∧
         (∃ errors, out !! "errors" = Some (VFieldErrors errors)) ∧
         out !! "data" = None.
Proof.
  intros out. split; [reflexivity|].
  apply (validate_discriminated_union Samples.person Samples.al_30 None []
           out [CallSafeParse Samples.al_30]).
  reflexivity.
Defined.

(** * More on validate *)

(** ** What of an error reaches the returned object *)

Section FieldErrors.

Implicit Types (l : list ZodIssue) (k : string) (e : ZodError).

Lemma messages_for_filter_path k l :
  messages_for k (filter (λ i, path i ≠ []) l) = messages_for k l.
Proof.
  induction l as [|sub l IH]; [reflexivity|].
  rewrite filter_cons, (messages_for_cons k sub l).
  destruct (decide (path sub ≠ [])) as [Hp|Hp].
  - rewrite messages_for_cons, IH. reflexivity.
  - rewrite IH.
    destruct (decide (field_key sub = Some k)) as [Hk|Hk]; [|reflexivity].
    exfalso. unfold field_key in Hk.
    destruct (path sub); [discriminate Hk | apply Hp; discriminate].
Qed.

Lemma messages_for_entries k l : ∀ l',
  (λ i, (field_key i, message i)) <$> l
    = (λ i, (field_key i, message i)) <$> l' →
  messages_for k l = messages_for k l'.
Proof.
  induction l as [|sub l IH]; intros [|sub' l'] Heq;
    try discriminate Heq; [reflexivity|].
  injection Heq as Hkey Hmsg Hrest.
  rewrite !messages_for_cons, Hkey, Hmsg, (IH l' Hrest). reflexivity.
Qed.

Lemma fieldErrors_ext e e' :
  (∀ k, messages_for k (issues e) = messages_for k (issues e')) →
  fieldErrors (flatten e) = fieldErrors (flatten e').
Proof.
  intros Hext. apply map_eq. intros k.
  rewrite !flatten_lookup, Hext. reflexivity.
Qed.

Lemma fieldErrors_empty_iff e :
  fieldErrors (flatten e) = ∅ ↔ Forall (λ i, path i = []) (issues e).
Proof.
  split; [|apply flatten_root_only].
  intros Hempty. apply Forall_forall. intros i Hi.
  destruct (path i) as [|p ps] eqn:Hp; [reflexivity|].
  exfalso.
  assert (prop_key p ∈ dom (fieldErrors (flatten e))) as Hdom.
  { apply flatten_dom. exists i. split; [exact Hi|].
    unfold field_key. rewrite Hp. reflexivity. }
  rewrite Hempty, dom_empty_L in Hdom. set_solver.
Qed.

End FieldErrors.

Section ValidateMore.

Context {O : Type}.
Implicit Types (V : Validator O) (d : JsValue) (o : option Options).
Implicit Types (t : Trace) (e : ZodError).

(** X1: [validate] has no [try]: when the selected parse operation throws
    (or its promise rejects), [validate] ends with that same exception,
    having made the call and written nothing to the console. *)
Theorem validate_throw_propagates V d o t reason :
  (if async_requested o
   then safeParseAsync V d = Rejected reason
   else safeParse V d = Throw reason) →
  fst (validate V d o t) = Throw reason ∧
  snd (validate V d o t) = t ++ [parse_call (async_requested o) d] ∧
  console_lines (snd (validate V d o t)) = console_lines t.
Proof.
  intros Hthrow. rewrite validate_run. unfold parse_settled.
  destruct (async_requested o); rewrite Hthrow; cbv zeta; simpl;
    (split; [reflexivity|]); (split; [reflexivity|]);
    unfold console_lines; rewrite omap_app; simpl; apply app_nil_r.
Qed.

(** X2: the operation that is not selected is never consulted: two
    validators that agree on the selected operation at [d] make [validate]
    behave identically, whatever their other operation does. *)
Theorem validate_ignores_other_operation V V' d o t :
  (if async_requested o
   then safeParseAsync V d = safeParseAsync V' d
   else safeParse V d = safeParse V' d) →
  validate V d o t = validate V' d o t.
Proof.
  intros Hagree. rewrite !validate_run. unfold parse_settled.
  destruct (async_requested o); rewrite Hagree; reflexivity.
Qed.

(** X3: for a validator whose promise from [safeParseAsync] settles to what
    [safeParse] returns on [d], the [async] option changes neither the
    completion of [validate] nor the console lines it writes. *)
Theorem validate_async_agrees_with_sync V d o o' t :
  match safeParseAsync V d with
  | Fulfilled r => Normal r
  | Rejected reason => Throw reason
  end = safeParse V d →
  fst (validate V d o t) = fst (validate V d o' t) ∧
  console_lines (snd (validate V d o t))
    = console_lines (snd (validate V d o' t)).
Proof.
  intros Hagree. rewrite !validate_run. unfold parse_settled.
  destruct (async_requested o), (async_requested o');
    rewrite ?Hagree; cbv zeta;
    destruct (safeParse V d) as [[x|e]|reason]; simpl;
    (split; [reflexivity|]);
    unfold console_lines; rewrite ?omap_app; reflexivity.
Qed.

(** X4: root-level issues never reach the returned object, also when they
    come mixed with field issues: two failing parses whose errors have the
    same issues with a non-empty path, in the same order, make [validate]
    return the same object. *)
Theorem validate_ignores_root_issues V V' d d' o o' t t' e e' :
  parse_settled V (async_requested o) d = Normal (SafeParseError e) →
  parse_settled V' (async_requested o') d' = Normal (SafeParseError e') →
  filter (λ i, path i ≠ []) (issues e)
    = filter (λ i, path i ≠ []) (issues e') →
  fst (validate V d o t) = fst (validate V' d' o' t').
Proof.
  intros Hfail Hfail' Hsame. rewrite !validate_run, Hfail, Hfail'.
  cbv zeta. simpl. rewrite (fieldErrors_ext e e'); [reflexivity|].
  intros k.
  rewrite <- (messages_for_filter_path k (issues e)), Hsame.
  apply messages_for_filter_path.
Qed.

(** X5: of the path of an issue only the first segment reaches the
    returned object, and only as a property key: two failing parses whose
    errors list the same (key of the first segment, message) pairs make
    [validate] return the same object, whatever the rest of the paths. *)
Theorem validate_keeps_first_segment_only V V' d d' o o' t t' e e' :
  parse_settled V (async_requested o) d = Normal (SafeParseError e) →
  parse_settled V' (async_requested o') d' = Normal (SafeParseError e') →
  (λ i, (field_key i, message i)) <$> issues e
    = (λ i, (field_key i, message i)) <$> issues e' →
  fst (validate V d o t) = fst (validate V' d' o' t').
Proof.
  intros Hfail Hfail' Hsame. rewrite !validate_run, Hfail, Hfail'.
  cbv zeta. simpl. rewrite (fieldErrors_ext e e'); [reflexivity|].
  intros k. now apply messages_for_entries.
Qed.

(** X6: on a failing parse the [errors] map of the returned object is
    empty exactly when no issue of the error has a path. *)
Theorem validate_errors_empty_iff V d o t e :
  parse_settled V (async_requested o) d = Normal (SafeParseError e) →
  ∃ out errors,
    fst (validate V d o t) = Normal out ∧
    out !! "errors" = Some (VFieldErrors errors) ∧
    (errors = ∅ ↔ Forall (λ i, path i = []) (issues e)).
Proof.
  intros Hfail. rewrite validate_run, Hfail. cbv zeta.
  eexists _, (fieldErrors (flatten e)).
  split; [reflexivity|]. split; [now simplify_map_eq|].
  apply fieldErrors_empty_iff.
Qed.

End ValidateMore.

(** ** Instances on the sample validators *)

Lemma validate_throw_propagates_witness :
  let reason := JString "Synchronous parse encountered promise." in
  safeParse Samples.async_only Samples.al_30 = Throw reason ∧
  (fst (validate Samples.async_only Samples.al_30 None []) = Throw reason ∧
   snd (validate Samples.async_only Samples.al_30 None [])
     = [] ++ [parse_call (async_requested None) Samples.al_30] ∧
   console_lines (snd (validate Samples.async_only Samples.al_30 None []))
     = console_lines []).
Proof.
  intros reason. split; [reflexivity|].
  apply (validate_throw_propagates Samples.async_only Samples.al_30 None []
           reason).
  reflexivity.
Defined.

Lemma validate_ignores_other_operation_witness :
  let o := Some {| async := true |} in
  (safeParseAsync Samples.person Samples.al_x
     = safeParseAsync Samples.async_only Samples.al_x ∧
   safeParse Samples.person Samples.al_x
     ≠ safeParse Samples.async_only Samples.al_x) ∧
  validate Samples.person Samples.al_x o []
    = validate Samples.async_only Samples.al_x o [].
Proof.
  intros o. split.
  - split; [reflexivity | discriminate].
  - apply (validate_ignores_other_operation Samples.person Samples.async_only
             Samples.al_x o []).
    reflexivity.
Defined.

Lemma validate_async_agrees_with_sync_witness :
  let o := Some {| async := true |} in
  match safeParseAsync Samples.person Samples.al_x with
  | Fulfilled r => Normal r
  | Rejected reason => Throw reason
  end = safeParse Samples.person Samples.al_x ∧
  (fst (validate Samples.person Samples.al_x o [])
     = fst (validate Samples.person Samples.al_x None []) ∧
   console_lines (snd (validate Samples.person Samples.al_x o []))
     = console_lines (snd (validate Samples.person Samples.al_x None []))).
Proof.
  intros o. split; [reflexivity|].
  apply (validate_async_agrees_with_sync Samples.person Samples.al_x o None []).
  reflexivity.
Defined.

Lemma validate_ignores_root_issues_witness :
  let V := MoreSamples.signup in
  let e := Samples.zod_error
             (MoreSamples.signup_issues "abc" "abc") in
  let e' := Samples.zod_error
              (MoreSamples.signup_issues "abc" "xyz") in
  (parse_settled V (async_requested None) MoreSamples.short_matching
     = Normal (SafeParseError e) ∧
   parse_settled V (async_requested None) MoreSamples.short_differing
     = Normal (SafeParseError e') ∧
   issues e ≠ issues e' ∧
   filter (λ i, path i ≠ []) (issues e)
     = filter (λ i, path i ≠ []) (issues e')) ∧
  fst (validate V MoreSamples.short_matching None [])
    = fst (validate V MoreSamples.short_differing None []).
Proof.
  intros V e e'. split.
  - split; [reflexivity|]. split; [reflexivity|].
    split; [discriminate | reflexivity].
  - apply (validate_ignores_root_issues V V MoreSamples.short_matching
             MoreSamples.short_differing None None [] [] e e');
      reflexivity.
Defined.

Lemma validate_keeps_first_segment_only_witness :
  let V := MoreSamples.tagged in
  let e := Samples.zod_error (MoreSamples.tag_issues [JNumber 1; JString "a"]) in
  let e' := Samples.zod_error (MoreSamples.tag_issues [JString "a"; JNumber 1]) in
  (parse_settled V (async_requested None) MoreSamples.bad_first_tag
     = Normal (SafeParseError e) ∧
   parse_settled V (async_requested None) MoreSamples.bad_second_tag
     = Normal (SafeParseError e') ∧
   issues e ≠ issues e' ∧
   (λ i, (field_key i, message i)) <$> issues e
     = (λ i, (field_key i, message i)) <$> issues e') ∧
  fst (validate V MoreSamples.bad_first_tag None [])
    = fst (validate V MoreSamples.bad_second_tag None []).
Proof.
  intros V e e'. split.
  - split; [reflexivity|]. split; [reflexivity|].
    split; [discriminate | reflexivity].
  - apply (validate_keeps_first_segment_only V V MoreSamples.bad_first_tag
             MoreSamples.bad_second_tag None None [] [] e e');
      reflexivity.
Defined.

Lemma validate_errors_empty_iff_witness :
  let e := Samples.zod_error [Samples.invalid_type [] "object" JNull] in
  parse_settled Samples.person (async_requested None) JNull
    = Normal (SafeParseError e) ∧
  ∃ out errors,
    fst (validate Samples.person JNull None []) = Normal out ∧
    out !! "errors" = Some (VFieldErrors errors) ∧
    (errors = ∅ ↔ Forall (λ i, path i = []) (issues e)).
Proof.
  intros e. split; [reflexivity|].
  apply (validate_errors_empty_iff Samples.person JNull None [] e).
  reflexivity.
Defined.
